(** * Facebook-Movement-Map-Analysis: [analytics.py]

    A shallow embedding of the tile-coordinate, map-projection, geodesic
    and attribute-search functions of [src/analytics.py], and the
    properties its specification states about them.

    Conventions of the embedding:
    - Python [int] is [Z] (unbounded), with [|] as [Z.lor] and [<<] as
      [Z.shiftl];
    - Python [float] is IEEE-754 binary64, i.e. Rocq's primitive [float];
      int operands of a mixed operation are converted first, as Python does;
    - a raised exception is a value of [exception] inside [outcome];
    - text written by [print] is collected, line by line, by the [io] monad;
    - a [dict] is a [gmap]; keyword arguments ([**kwargs]) keep their
      insertion order and are an association list;
    - a Python [str] is a sequence of Unicode code points, [list N]; the
      decoder is given on these ([QuadkeyStr]) and on Rocq strings of
      one-byte characters ([Quadkey]), which is where quadkeys live and
      where the two agree ([decode_squash]). *)

From Stdlib Require Import ZArith Ascii String List Lia Floats QArith Qabs Lqa.
From stdpp Require Import base option list gmap strings.

Local Open Scope Z_scope.

(** ** Python outcomes: values and exceptions *)

(** Keys that occur in a [KeyError] of this module: zoom levels (ints) and
    attribute names (strings). *)
Inductive pykey : Type :=
| KInt (z : Z)
| KStr (s : string).

Inductive exception : Type :=
| KeyError (key : pykey)
| IndexError (msg : string)
| TypeError (msg : string).

(** The class name of an exception, as [type(e).__name__] gives it. *)
Definition exc_class (e : exception) : string :=
  match e with
  | KeyError _ => "KeyError"
  | IndexError _ => "IndexError"
  | TypeError _ => "TypeError"
  end.

Inductive outcome (A : Type) : Type :=
| Returned (a : A)
| Raised (e : exception).
Arguments Returned {A} a.
Arguments Raised {A} e.

#[global] Instance outcome_ret : MRet outcome := fun _ a => Returned a.
#[global] Instance outcome_bind : MBind outcome := fun _ _ f m =>
  match m with
  | Returned a => f a
  | Raised e => Raised e
  end.

(** [raises_class cls o]: the call ended in an exception of class [cls]. *)
Definition raises_class {A} (cls : string) (o : outcome A) : Prop :=
  exists e, o = Raised e /\ exc_class e = cls.

Definition returns {A} (o : outcome A) : Prop := exists a, o = Returned a.

(** A [for] loop whose body may raise: the state is threaded through the
    items in order and the first exception ends the loop. *)
Fixpoint for_each {S I : Type} (body : S -> I -> outcome S) (st : S) (items : list I)
  : outcome S :=
  match items with
  | [] => Returned st
  | i :: rest =>
      match body st i with
      | Returned st' => for_each body st' rest
      | Raised e => Raised e
      end
  end.

(** ** Output and exceptions together: the [io] monad *)

(** A computation that may print lines and may raise.  The lines printed so
    far are kept also when an exception is raised. *)
Definition io (A : Type) : Type := list string -> outcome A * list string.

#[global] Instance io_ret : MRet io := fun _ a out => (Returned a, out).
#[global] Instance io_bind : MBind io := fun _ _ f m out =>
  match m out with
  | (Returned a, out') => f a out'
  | (Raised e, out') => (Raised e, out')
  end.

Definition print (line : string) : io unit := fun out => (Returned tt, out ++ [line]).
Definition lift_outcome {A} (o : outcome A) : io A := fun out => (o, out).

Fixpoint io_for_each {S I : Type} (body : S -> I -> io S) (st : S) (items : list I)
  : io S :=
  match items with
  | [] => mret st
  | i :: rest => st' ← body st i; io_for_each body st' rest
  end.

(** Run a computation from an empty output. *)
Definition run {A} (m : io A) : outcome A * list string := m [].

(** ** Python primitives used by the module *)

(** [s[i]] on a [str] whose characters are one byte each (every quadkey is
    one): negative indices count from the end, and an index outside the
    string raises [IndexError].  [pystr_getitem] below is the same on
    arbitrary code points. *)
Definition str_getitem (s : string) (i : Z) : outcome ascii :=
  let n := Z.of_nat (String.length s) in
  let j := if i <? 0 then i + n else i in
  if (0 <=? j) && (j <? n) then
    match String.get (Z.to_nat j) s with
    | Some c => Returned c
    | None => Raised (IndexError "string index out of range")
    end
  else Raised (IndexError "string index out of range").

(** [range(start, stop, -1)]: [start, start-1, ..., stop+1]. *)
Definition range_down (start stop : Z) : list Z :=
  map (fun k => start - Z.of_nat k) (seq 0 (Z.to_nat (start - stop))).

(** ** [quadkey_to_tile_coordinates] *)

(** The decoder on strings of one-byte characters; [QuadkeyStr] below is the
    decoder on arbitrary Python strings. *)
Module Quadkey.

Record coords : Type := { x : Z; y : Z }.

Definition error_line : string := "[ERROR] Invalid quadkey digit sequence.".

(** One iteration of the loop (lines 81-95): the four digit branches end in
    [continue], every other character falls through to the [print]. *)
Definition body (quadkey : string) (tile_size : Z) (c : coords) (i : Z) : io coords :=
  let mask := Z.shiftl 1 (i - 1) in
  digit ← lift_outcome (str_getitem quadkey (tile_size - i));
  if Ascii.eqb digit "0" then mret c
  else if Ascii.eqb digit "1" then mret {| x := Z.lor (x c) mask; y := y c |}
  else if Ascii.eqb digit "2" then mret {| x := x c; y := Z.lor (y c) mask |}
  else if Ascii.eqb digit "3" then
    mret {| x := Z.lor (x c) mask; y := Z.lor (y c) mask |}
  else _ ← print error_line; mret c.

Definition quadkey_to_tile_coordinates (quadkey : string) : io (Z * Z) :=
  let tile_size := Z.of_nat (String.length quadkey) in
  c ← io_for_each (body quadkey tile_size) {| x := 0; y := 0 |}
          (range_down tile_size 0);
  mret (x c, y c).

(** What a character contributes to each coordinate. *)
Definition sets_x (d : ascii) : bool := Ascii.eqb d "1" || Ascii.eqb d "3".
Definition sets_y (d : ascii) : bool := Ascii.eqb d "2" || Ascii.eqb d "3".
Definition valid_digit (d : ascii) : bool :=
  Ascii.eqb d "0" || Ascii.eqb d "1" || Ascii.eqb d "2" || Ascii.eqb d "3".

Fixpoint all_valid (s : string) : bool :=
  match s with
  | EmptyString => true
  | String d rest => valid_digit d && all_valid rest
  end.

(** Number of characters outside '0'..'3'. *)
Fixpoint invalid_count (s : string) : nat :=
  match s with
  | EmptyString => O
  | String d rest => (if valid_digit d then O else 1%nat) + invalid_count rest
  end.

(** "The bit [mask] of [v] is set". *)
Definition bit_set (v mask : Z) : bool := negb (Z.land v mask =? 0).

(** The loop read off the string itself, for the proofs: the characters from
    left to right, the first one carrying the highest mask. *)
Fixpoint read_digits (s : string) (c : coords) (out : list string)
  : coords * list string :=
  match s with
  | EmptyString => (c, out)
  | String d rest =>
      let mask := Z.shiftl 1 (Z.of_nat (String.length rest)) in
      read_digits rest
        {| x := if sets_x d then Z.lor (x c) mask else x c;
           y := if sets_y d then Z.lor (y c) mask else y c |}
        (if valid_digit d then out else out ++ [error_line])
  end.

(** The coordinates the loop builds from a string, starting from (0, 0). *)
Definition decoded (s : string) : coords := (read_digits s {| x := 0; y := 0 |} []).1.

(** What the character that carries bit [j] (the one at index [len - 1 - j])
    contributes to a coordinate, [f] being [sets_x] or [sets_y]. *)
Definition digit_bit (f : ascii -> bool) (s : string) (j : Z) : bool :=
  (j <? Z.of_nat (String.length s))
  && match String.get (Z.to_nat (Z.of_nat (String.length s) - 1 - j)) s with
     | Some d => f d
     | None => false
     end.

(** A quadkey of length [n] for the tile (xv, yv): not in the source, which
    only decodes; used to show that every tile of the grid is reached. *)
Definition digit_of_bits (bitx bity : bool) : ascii :=
  match bitx, bity with
  | false, false => "0"
  | true, false => "1"
  | false, true => "2"
  | true, true => "3"
  end.

Fixpoint quadkey_of (n : nat) (xv yv : Z) : string :=
  match n with
  | O => EmptyString
  | Datatypes.S n' =>
      quadkey_of n' (xv / 2) (yv / 2)
      +:+ String (digit_of_bits (Z.odd xv) (Z.odd yv)) EmptyString
  end.

End Quadkey.

(** ** The decoder on Python strings *)

(** [s[i]] on a [str] of code points, as [str_getitem] above. *)
Definition pystr_getitem (s : list N) (i : Z) : outcome N :=
  let n := Z.of_nat (length s) in
  let j := if i <? 0 then i + n else i in
  if (0 <=? j) && (j <? n) then
    match s !! Z.to_nat j with
    | Some c => Returned c
    | None => Raised (IndexError "string index out of range")
    end
  else Raised (IndexError "string index out of range").

(** [ord(c)] of a one-byte character. *)
Definition ord (c : ascii) : N := N_of_ascii c.

Module QuadkeyStr.
Import Quadkey.

(** One iteration of the loop (lines 81-95); [digit == '0'] compares code
    points. *)
Definition body (quadkey : list N) (tile_size : Z) (c : coords) (i : Z) : io coords :=
  let mask := Z.shiftl 1 (i - 1) in
  digit ← lift_outcome (pystr_getitem quadkey (tile_size - i));
  if N.eqb digit (ord "0") then mret c
  else if N.eqb digit (ord "1") then mret {| x := Z.lor (x c) mask; y := y c |}
  else if N.eqb digit (ord "2") then mret {| x := x c; y := Z.lor (y c) mask |}
  else if N.eqb digit (ord "3") then
    mret {| x := Z.lor (x c) mask; y := Z.lor (y c) mask |}
  else _ ← print error_line; mret c.

Definition quadkey_to_tile_coordinates (quadkey : list N) : io (Z * Z) :=
  let tile_size := Z.of_nat (length quadkey) in
  c ← io_for_each (body quadkey tile_size) {| x := 0; y := 0 |}
          (range_down tile_size 0);
  mret (x c, y c).

(** The code points of '0'..'3'. *)
Definition is_digit (c : N) : bool :=
  N.eqb c (ord "0") || N.eqb c (ord "1") || N.eqb c (ord "2") || N.eqb c (ord "3").

(** Number of characters outside '0'..'3'. *)
Definition invalid_count (s : list N) : nat :=
  length (List.filter (fun c => negb (is_digit c)) s).

(** For the proofs: a code point seen as the decoder sees it, one of the
    four digits or something else, and a string seen that way. *)
Definition squash (c : N) : ascii :=
  if N.eqb c (ord "0") then "0"
  else if N.eqb c (ord "1") then "1"
  else if N.eqb c (ord "2") then "2"
  else if N.eqb c (ord "3") then "3"
  else "x".

Fixpoint squash_str (s : list N) : string :=
  match s with
  | [] => EmptyString
  | c :: rest => String (squash c) (squash_str rest)
  end.

End QuadkeyStr.

(** ** The numeric library *)

(** [numpy]'s elementary functions on binary64 are not part of the
    repository; the module is verified for every implementation of them. *)
Class Numpy : Type := {
  np_log : float -> float;
  np_tan : float -> float;
  np_arctan : float -> float;
  np_exp : float -> float
}.

(** [np.pi], the binary64 nearest to pi. *)
Definition np_pi : float := 0x1.921fb54442d18p+1%float.

(** A coarse implementation (first-order expansions around the arguments the
    projection uses), only to evaluate the definitions on concrete inputs. *)
Definition coarse_numpy : Numpy := {|
  np_log := fun v => (v - 1)%float;
  np_tan := fun v => (1 + 2 * (v - np_pi / 4))%float;
  np_arctan := fun v => (np_pi / 4 + (v - 1) / 2)%float;
  np_exp := fun v => (1 + v)%float
|}.

(** ** Mercator projection *)

Module Mercator.
Section WithNumpy.
Context `{Numpy}.

(** WGS-84 equatorial radius; an [int] in the source, converted to binary64
    by each mixed operation. *)
Definition earth_radius : float := 6378137%float.

Definition spherical_to_mercator_coordinates (lon lat : float) : float * float :=
  let x := (earth_radius * lon * np_pi / 180)%float in
  let y := (earth_radius * np_log (np_tan (np_pi / 4 + lat * np_pi / 360)))%float in
  (y, x).

Definition mercator_to_spherical_coordinates (y x : float) : float * float :=
  let lon := (x / earth_radius * 180 / np_pi)%float in
  let lat :=
    ((2 * np_arctan (np_exp (y / earth_radius)) - np_pi / 2) * 180 / np_pi)%float in
  (lon, lat).

End WithNumpy.
End Mercator.

(** ** The round trip through the projection *)

Module RoundTrip.
Import Mercator.

Section WithNumpy.
Context `{Numpy}.


End WithNumpy.





End RoundTrip.

(** ** Tile geometry *)

(** [d[k]] on a [dict] with int keys. *)
Definition dict_getitem {V} (d : gmap Z V) (k : Z) : outcome V :=
  match d !! k with
  | Some v => Returned v
  | None => Raised (KeyError (KInt k))
  end.

Module Tile.
Import Mercator.

#[warnings="-inexact-float"]
Definition tile_length : gmap Z float :=
  list_to_map
    [ (1,  20015089.262170314752%float);
      (2,  10007544.631085157376%float);
      (3,  5003772.315542578688%float);
      (4,  2501886.157771289344%float);
      (5,  1250943.078885644672%float);
      (6,  625471.539442822336%float);
      (7,  312735.769721411168%float);
      (8,  156367.884860705584%float);
      (9,  78183.942430352792%float);
      (10, 39091.971215176396%float);
      (11, 19545.985607588198%float);
      (12, 9772.992803794099%float);
      (13, 4886.4964018970495%float);
      (14, 2443.24820094852475%float);
      (15, 1221.624100474262375%float);
      (16, 610.8120502371311875%float) ].

Definition point : Type := (float * float)%type.

Section WithNumpy.
Context `{Numpy}.

Definition get_tile_vertices (lon lat : float) (tile_size : Z)
  : outcome (point * point * point * point) :=
  length ← dict_getitem tile_length tile_size;
  let '(y, x) := spherical_to_mercator_coordinates lon lat in
  let p0 := mercator_to_spherical_coordinates (y + length / 2) (x - length / 2) in
  let p1 := mercator_to_spherical_coordinates (y + length / 2) (x + length / 2) in
  let p2 := mercator_to_spherical_coordinates (y - length / 2) (x - length / 2) in
  let p3 := mercator_to_spherical_coordinates (y - length / 2) (x + length / 2) in
  mret (p0, p1, p2, p3).

End WithNumpy.
End Tile.

(** ** Geodesic distance *)

Module Geodesic.

(** The [vincenty] package is not part of the repository.  Its function
    takes two (lat, lon) points and gives the distance in kilometres, or
    [None] when the iteration does not converge; like every call it may
    also raise. *)
Class VincentyLib : Type := {
  vincenty : float * float -> float * float -> outcome (option float)
}.

(** What [None * 1000] raises. *)
Definition none_times_int : exception :=
  TypeError "unsupported operand type(s) for *: 'NoneType' and 'int'".

(** [v * 1000] where [v] is what [vincenty] returned: a product of floats,
    or a [TypeError] when [v] is [None]. *)
Definition mul_int (v : option float) (k : float) : outcome float :=
  match v with
  | Some d => Returned (d * k)%float
  | None => Raised none_times_int
  end.

Section WithVincenty.
Context `{VincentyLib}.

Definition orthodrome_length (lat1 lon1 lat2 lon2 : float) : outcome float :=
  v ← vincenty (lat1, lon1) (lat2, lon2);
  length ← mul_int v 1000%float;
  mret length.

End WithVincenty.

(** One degree of longitude on the equator: the package's value in
    kilometres (it rounds to six decimals), and the specification's value in
    metres. *)
#[warnings="-inexact-float"]
Definition equator_degree_km : float := 111.319491%float.
#[warnings="-inexact-float"]
Definition equator_degree_m : float := 111319.49%float.

(** A two-case stand-in for the package, to evaluate [orthodrome_length]:
    the package's value for one degree of longitude on the equator, and
    non-convergence for every other pair. *)
Definition sample_vincenty : VincentyLib := {|
  vincenty := fun p q =>
    if (PrimFloat.eqb (fst p) 0 && PrimFloat.eqb (snd p) 0
        && PrimFloat.eqb (fst q) 0 && PrimFloat.eqb (snd q) 1)%bool
    then Returned (Some equator_degree_km)
    else Returned None
|}.

(** "Approximately [target]": within a hundredth of it. *)
#[warnings="-inexact-float"]
Definition approx (r target : float) : bool :=
  PrimFloat.ltb (PrimFloat.abs (r - target)) 0.01%float.

End Geodesic.

(** ** Attribute search *)

Module Search.
Section WithValues.
(** Node identifiers and attribute values are arbitrary Python objects;
    [val_eq] is their [==]. *)
Context {node V : Type} (val_eq : V -> V -> bool).

(** An attribute mapping: a [dict] from attribute names to values. *)
Local Abbreviation attrs := (gmap string V).

(** The two views a search iterates over: [graph.nodes.data()] and
    [graph.edges.data()], in iteration order. *)
Record DiGraph : Type := {
  nodes_data : list (node * attrs);
  edges_data : list (node * node * attrs)
}.

(** [data[key]]. *)
Definition attr_getitem (data : attrs) (key : string) : outcome V :=
  match data !! key with
  | Some v => Returned v
  | None => Raised (KeyError (KStr key))
  end.

(** [all(data[key] == value for key, value in kwargs.items())]: the items are
    visited in order, the first unequal one ends the scan with [False], and a
    key missing from [data] raises when the scan reaches it. *)
Fixpoint all_items_equal (data : attrs) (kwargs : list (string * V)) : outcome bool :=
  match kwargs with
  | [] => Returned true
  | (key, value) :: rest =>
      d ← attr_getitem data key;
      if val_eq d value then all_items_equal data rest else Returned false
  end.

Definition search_edges (graph : DiGraph) (kwargs : list (string * V))
  : outcome (list (node * node * attrs)) :=
  for_each
    (fun edges '(id1, id2, data) =>
       ok ← all_items_equal data kwargs;
       mret (if ok : bool then edges ++ [(id1, id2, data)] else edges))
    [] (edges_data graph).

Definition search_nodes (graph : DiGraph) (kwargs : list (string * V))
  : outcome (list (node * attrs)) :=
  for_each
    (fun nodes '(id, data) =>
       ok ← all_items_equal data kwargs;
       mret (if ok : bool then nodes ++ [(id, data)] else nodes))
    [] (nodes_data graph).

(** [search_graphs] reads the attributes of each element through its
    [.graph] mapping, here the accessor [graph_attrs] on any graph type [G],
    and collects the graphs themselves. *)
Definition search_graphs {G : Type} (graph_attrs : G -> attrs) (graphs : list G)
    (kwargs : list (string * V)) : outcome (list G) :=
  for_each
    (fun _graphs graph =>
       ok ← all_items_equal (graph_attrs graph) kwargs;
       mret (if ok : bool then _graphs ++ [graph] else _graphs))
    [] graphs.

(** The loop body that [search_edges] and [search_nodes] share, for the
    proofs: over elements of any shape [X] whose attributes are [attrs_of]. *)
Definition scan {X : Type} (attrs_of : X -> attrs) (kwargs : list (string * V))
  (found : list X) (item : X) : outcome (list X) :=
  ok ← all_items_equal (attrs_of item) kwargs;
  mret (if ok : bool then found ++ [item] else found).

(** The matching relation as the specification words it: every query key is
    present in the element's attributes with an equal value; an absent key is
    a non-match. *)
Definition spec_matches (data : attrs) (kwargs : list (string * V)) : bool :=
  forallb (fun '(key, value) =>
             match data !! key with
             | Some d => val_eq d value
             | None => false
             end) kwargs.

(** Every query key is present in [data]. *)
Definition has_keys (data : attrs) (kwargs : list (string * V)) : Prop :=
  Forall (fun '(key, _) => is_Some (data !! key)) kwargs.

End WithValues.



(** Graphs whose edges carry a weight and a kind: all of them, or only the
    first. *)
Definition tagged_graph : @DiGraph Z Z :=
  {| nodes_data := [];
     edges_data := [(1, 2, <["kind" := 1]> {["weight" := 7]});
                    (2, 3, <["kind" := 2]> {["weight" := 7]});
                    (3, 1, <["kind" := 1]> {["weight" := 5]})] |}.

Definition partly_tagged_graph : @DiGraph Z Z :=
  {| nodes_data := [];
     edges_data := [(1, 2, <["kind" := 1]> {["weight" := 7]});
                    (2, 3, {["weight" := 7]});
                    (3, 1, ∅)] |}.

End Search.

(** * Properties *)

(** ** Loops and primitives *)

Lemma range_down_step (start stop : Z) :
  stop < start -> range_down start stop = start :: range_down (start - 1) stop.
Proof.
  intros Hlt. unfold range_down.
  replace (Z.to_nat (start - stop)) with (Datatypes.S (Z.to_nat (start - 1 - stop))) by lia.
  cbn [seq map]. f_equal; [lia|].
  rewrite <- seq_shift, map_map.
  apply map_ext. intros k. lia.
Qed.

Lemma range_down_empty (start stop : Z) : start <= stop -> range_down start stop = [].
Proof.
  intros Hle. unfold range_down.
  replace (Z.to_nat (start - stop)) with O by lia. reflexivity.
Qed.

Lemma string_get_lt (s : string) :
  forall (j : nat) (d : ascii), String.get j s = Some d -> (j < String.length s)%nat.
Proof.
  induction s as [|a s IH]; intros j d Hget; [discriminate|].
  destruct j as [|j]; cbn in *; [lia|].
  apply IH in Hget. lia.
Qed.

Lemma string_length_append (pre suf : string) :
  String.length (pre +:+ suf) = (String.length pre + String.length suf)%nat.
Proof.
  induction pre as [|a pre IH]; [reflexivity|].
  change (Datatypes.S (String.length (pre +:+ suf))
          = Datatypes.S (String.length pre + String.length suf)).
  now f_equal.
Qed.

Lemma string_get_middle (pre : string) (d : ascii) (rest : string) :
  String.get (String.length pre) (pre +:+ String d rest) = Some d.
Proof. induction pre as [|a pre IH]; cbn; [reflexivity|exact IH]. Qed.

Lemma string_append_snoc (pre : string) (d : ascii) (rest : string) :
  (pre +:+ String d EmptyString) +:+ rest = pre +:+ String d rest.
Proof.
  induction pre as [|a pre IH]; [reflexivity|].
  change (String a ((pre +:+ String d EmptyString) +:+ rest)
          = String a (pre +:+ String d rest)).
  now f_equal.
Qed.

Lemma str_getitem_in_range (s : string) (j : nat) (d : ascii) :
  String.get j s = Some d -> str_getitem s (Z.of_nat j) = Returned d.
Proof.
  intros Hget. pose proof (string_get_lt _ _ _ Hget) as Hlt.
  unfold str_getitem.
  destruct (Z.ltb_spec (Z.of_nat j) 0) as [|_]; [lia|].
  destruct (Z.leb_spec 0 (Z.of_nat j)) as [_|]; [|lia].
  destruct (Z.ltb_spec (Z.of_nat j) (Z.of_nat (String.length s))) as [_|]; [|lia].
  cbn. now rewrite Nat2Z.id, Hget.
Qed.

(** ** The quadkey decoder *)

Section QuadkeyFacts.
Import Quadkey.

Lemma body_read (s : string) (n : Z) (c : coords) (i : Z) (d : ascii) (out : list string) :
  str_getitem s (n - i) = Returned d ->
  body s n c i out =
    (Returned {| x := if sets_x d then Z.lor (x c) (Z.shiftl 1 (i - 1)) else x c;
                 y := if sets_y d then Z.lor (y c) (Z.shiftl 1 (i - 1)) else y c |},
     if valid_digit d then out else out ++ [error_line]).
Proof.
  intros Hd. unfold body, lift_outcome, mbind, io_bind. rewrite Hd.
  unfold sets_x, sets_y, valid_digit. destruct c as [cx cy].
  destruct (Ascii.eqb_spec d "0") as [->|_]; [reflexivity|].
  destruct (Ascii.eqb_spec d "1") as [->|_]; [reflexivity|].
  destruct (Ascii.eqb_spec d "2") as [->|_]; [reflexivity|].
  destruct (Ascii.eqb_spec d "3") as [->|_]; reflexivity.
Qed.

(** The index loop over [range(tile_size, 0, -1)] reads the characters of the
    string from left to right and never raises. *)
Lemma loop_read (suf : string) :
  forall (pre : string) (c : coords) (out : list string),
    io_for_each (body (pre +:+ suf) (Z.of_nat (String.length (pre +:+ suf)))) c
      (range_down (Z.of_nat (String.length suf)) 0) out
    = (Returned (read_digits suf c out).1, (read_digits suf c out).2).
Proof.
  induction suf as [|d rest IH]; intros pre c out.
  - reflexivity.
  - rewrite range_down_step by (cbn [String.length]; lia).
    cbn [io_for_each]. unfold mbind at 1, io_bind at 1.
    rewrite (body_read _ _ _ _ d).
    + replace (Z.of_nat (String.length (String d rest)) - 1)
        with (Z.of_nat (String.length rest)) by (cbn [String.length]; lia).
      rewrite <- (string_append_snoc pre d rest). rewrite IH.
      reflexivity.
    + replace (Z.of_nat (String.length (pre +:+ String d rest))
               - Z.of_nat (String.length (String d rest)))
        with (Z.of_nat (String.length pre))
        by (rewrite string_length_append; lia).
      apply str_getitem_in_range, string_get_middle.
Qed.

Lemma decode_read (quadkey : string) :
  run (quadkey_to_tile_coordinates quadkey)
  = (let r := read_digits quadkey {| x := 0; y := 0 |} [] in
     (Returned (x r.1, y r.1), r.2)).
Proof.
  unfold run, quadkey_to_tile_coordinates. unfold mbind at 1, io_bind at 1.
  rewrite (loop_read quadkey EmptyString). reflexivity.
Qed.

Lemma lor_mask_testbit (v k j : Z) :
  0 <= k -> Z.testbit (Z.lor v (Z.shiftl 1 k)) j = Z.testbit v j || (k =? j).
Proof. intros Hk. now rewrite Z.lor_spec, Z.shiftl_1_l, Z.pow2_bits_eqb. Qed.

Lemma bit_set_testbit (v k : Z) :
  0 <= k -> bit_set v (Z.shiftl 1 k) = Z.testbit v k.
Proof.
  intros Hk. unfold bit_set. rewrite Z.shiftl_1_l.
  destruct (Z.testbit v k) eqn:Hbit.
  - destruct (Z.eqb_spec (Z.land v (2 ^ k)) 0) as [Hzero|]; [|reflexivity].
    assert (Hk' : Z.testbit (Z.land v (2 ^ k)) k = true)
      by now rewrite Z.land_spec, Hbit, Z.pow2_bits_true.
    rewrite Hzero, Z.bits_0 in Hk'. discriminate.
  - replace (Z.land v (2 ^ k)) with 0; [reflexivity|].
    symmetry. apply Z.bits_inj_0. intros j.
    rewrite Z.land_spec, Z.pow2_bits_eqb by assumption.
    destruct (Z.eqb_spec k j) as [<-|_]; [now rewrite Hbit|apply andb_false_r].
Qed.

(** Reading a string leaves the bits at and above its length alone. *)
Lemma read_digits_high (s : string) :
  forall (c : coords) (out : list string) (j : Z),
    Z.of_nat (String.length s) <= j ->
    Z.testbit (x (read_digits s c out).1) j = Z.testbit (x c) j
    /\ Z.testbit (y (read_digits s c out).1) j = Z.testbit (y c) j.
Proof.
  induction s as [|d rest IH]; intros c out j Hj; [now split|].
  cbn [read_digits String.length] in *.
  destruct (IH {| x := if sets_x d then Z.lor (x c) (Z.shiftl 1 (Z.of_nat (String.length rest)))
                       else x c;
                  y := if sets_y d then Z.lor (y c) (Z.shiftl 1 (Z.of_nat (String.length rest)))
                       else y c |}
              (if valid_digit d then out else out ++ [error_line]) j ltac:(lia))
    as [Hx Hy].
  rewrite Hx, Hy. cbn [x y].
  assert (Hne : (Z.of_nat (String.length rest) =? j) = false) by (apply Z.eqb_neq; lia).
  split.
  - destruct (sets_x d); [|reflexivity].
    rewrite lor_mask_testbit, Hne by lia. apply orb_false_r.
  - destruct (sets_y d); [|reflexivity].
    rewrite lor_mask_testbit, Hne by lia. apply orb_false_r.
Qed.

(** The bit of mask [1 << (i-1)] comes from the character at index
    [len - i], and from nothing else. *)
Lemma read_digits_bits (s : string) :
  forall (c : coords) (out : list string) (i : Z) (d : ascii),
    1 <= i <= Z.of_nat (String.length s) ->
    String.get (Z.to_nat (Z.of_nat (String.length s) - i)) s = Some d ->
    Z.testbit (x (read_digits s c out).1) (i - 1) = Z.testbit (x c) (i - 1) || sets_x d
    /\ Z.testbit (y (read_digits s c out).1) (i - 1) = Z.testbit (y c) (i - 1) || sets_y d.
Proof.
  induction s as [|d0 rest IH]; intros c out i d Hi Hget; [discriminate|].
  cbn [read_digits].
  set (c1 := {| x := _; y := _ |}). set (out1 := if valid_digit d0 then _ else _).
  destruct (Z.eq_dec i (Z.of_nat (String.length (String d0 rest)))) as [->|Hne].
  - rewrite Z.sub_diag in Hget. cbn in Hget. injection Hget as ->.
    destruct (read_digits_high rest c1 out1
                (Z.of_nat (String.length (String d rest)) - 1)) as [Hx Hy];
      [cbn [String.length]; lia|].
    rewrite Hx, Hy. subst c1. cbn [x y].
    replace (Z.of_nat (String.length (String d rest)) - 1)
      with (Z.of_nat (String.length rest)) by (cbn [String.length]; lia).
    split.
    + destruct (sets_x d); [|now rewrite orb_false_r].
      rewrite lor_mask_testbit, Z.eqb_refl by lia. reflexivity.
    + destruct (sets_y d); [|now rewrite orb_false_r].
      rewrite lor_mask_testbit, Z.eqb_refl by lia. reflexivity.
  - cbn [String.length] in Hi, Hne, Hget.
    replace (Z.to_nat (Z.of_nat (Datatypes.S (String.length rest)) - i))
      with (Datatypes.S (Z.to_nat (Z.of_nat (String.length rest) - i))) in Hget by lia.
    cbn [String.get] in Hget.
    destruct (IH c1 out1 i d ltac:(lia) Hget) as [Hx Hy].
    rewrite Hx, Hy. subst c1. cbn [x y].
    assert (Hoff : (Z.of_nat (String.length rest) =? i - 1) = false)
      by (apply Z.eqb_neq; lia).
    split.
    + destruct (sets_x d0); [|reflexivity].
      now rewrite lor_mask_testbit, Hoff, orb_false_r by lia.
    + destruct (sets_y d0); [|reflexivity].
      now rewrite lor_mask_testbit, Hoff, orb_false_r by lia.
Qed.

Lemma read_digits_nonneg (s : string) :
  forall (c : coords) (out : list string),
    0 <= x c -> 0 <= y c ->
    0 <= x (read_digits s c out).1 /\ 0 <= y (read_digits s c out).1.
Proof.
  induction s as [|d rest IH]; intros c out Hx Hy; [now split|].
  cbn [read_digits]. apply IH; cbn [x y].
  - destruct (sets_x d); [|assumption].
    apply Z.lor_nonneg. split; [assumption|]. rewrite Z.shiftl_1_l. lia.
  - destruct (sets_y d); [|assumption].
    apply Z.lor_nonneg. split; [assumption|]. rewrite Z.shiftl_1_l. lia.
Qed.

(** One error line per character outside '0'..'3', appended in order. *)
Lemma read_digits_out (s : string) :
  forall (c : coords) (out : list string),
    (read_digits s c out).2 = out ++ repeat error_line (invalid_count s).
Proof.
  induction s as [|d rest IH]; intros c out.
  - cbn. now rewrite app_nil_r.
  - cbn [read_digits invalid_count]. rewrite IH.
    destruct (valid_digit d); [reflexivity|].
    now rewrite <- app_assoc.
Qed.

Lemma all_valid_invalid_count (s : string) :
  all_valid s = true <-> invalid_count s = O.
Proof.
  induction s as [|d rest IH]; [done|].
  cbn [all_valid invalid_count]. destruct (valid_digit d); cbn; [exact IH|].
  split; discriminate.
Qed.

Lemma string_get_valid (s : string) :
  all_valid s = true ->
  forall (j : nat) (d : ascii), String.get j s = Some d -> valid_digit d = true.
Proof.
  induction s as [|d0 rest IH]; intros Hv j d Hget; [discriminate|].
  cbn [all_valid] in Hv. apply andb_true_iff in Hv as [Hd0 Hrest].
  destruct j as [|j]; cbn in Hget.
  - now injection Hget as <-.
  - eapply IH; eassumption.
Qed.

Lemma string_get_some (s : string) :
  forall j : nat, (j < String.length s)%nat -> exists d, String.get j s = Some d.
Proof.
  induction s as [|d0 rest IH]; intros j Hj; cbn [String.length] in Hj; [lia|].
  destruct j as [|j]; [now exists d0|].
  cbn [String.get]. apply IH. lia.
Qed.

Lemma sets_x_iff (d : ascii) : sets_x d = true <-> d = "1"%char \/ d = "3"%char.
Proof. unfold sets_x. rewrite orb_true_iff, !Ascii.eqb_eq. reflexivity. Qed.

Lemma sets_y_iff (d : ascii) : sets_y d = true <-> d = "2"%char \/ d = "3"%char.
Proof. unfold sets_y. rewrite orb_true_iff, !Ascii.eqb_eq. reflexivity. Qed.

(** What the decoder does on every string, valid or not: it returns, prints
    one line per character outside '0'..'3', and builds both coordinates bit
    by bit from the characters. *)
Lemma decode_spec (quadkey : string) :
  let n := Z.of_nat (String.length quadkey) in
  exists xv yv : Z,
    run (quadkey_to_tile_coordinates quadkey)
    = (Returned (xv, yv), repeat error_line (invalid_count quadkey))
    /\ 0 <= xv < 2 ^ n /\ 0 <= yv < 2 ^ n
    /\ forall i : Z, 1 <= i <= n ->
         exists d : ascii,
           String.get (Z.to_nat (n - i)) quadkey = Some d
           /\ bit_set xv (Z.shiftl 1 (i - 1)) = sets_x d
           /\ bit_set yv (Z.shiftl 1 (i - 1)) = sets_y d.
Proof.
  intros n. set (c0 := {| x := 0; y := 0 |}).
  exists (x (read_digits quadkey c0 []).1), (y (read_digits quadkey c0 []).1).
  destruct (read_digits_nonneg quadkey c0 [] ltac:(done) ltac:(done)) as [Hx0 Hy0].
  repeat split; try assumption.
  - rewrite decode_read. cbn zeta. fold c0. now rewrite read_digits_out.
  - apply Z.bounded_iff_bits_nonneg; [lia|assumption|]. intros j Hj.
    destruct (read_digits_high quadkey c0 [] j Hj) as [-> _]. apply Z.bits_0.
  - apply Z.bounded_iff_bits_nonneg; [lia|assumption|]. intros j Hj.
    destruct (read_digits_high quadkey c0 [] j Hj) as [_ ->]. apply Z.bits_0.
  - intros i Hi.
    destruct (string_get_some quadkey (Z.to_nat (n - i)) ltac:(lia)) as [d Hd].
    exists d. split; [assumption|].
    destruct (read_digits_bits quadkey c0 [] i d Hi Hd) as [Hx Hy].
    rewrite !bit_set_testbit by lia. rewrite Hx, Hy. cbn [c0 x y].
    now rewrite !Z.bits_0.
Qed.

(** C1. For a quadkey over the digits '0'..'3' of length n, the decoder
    returns (x, y), printing nothing, such that for each position i from n
    down to 1 the bit [1 << (i-1)] of x is set iff the digit at index n-i is
    '1' or '3', and that bit of y is set iff the digit is '2' or '3'; and
    "123" decodes to x = 5, y = 3. *)
Theorem quadkey_digit_bits (quadkey : string) (Hvalid : all_valid quadkey = true) :
  let n := Z.of_nat (String.length quadkey) in
  (exists xv yv : Z,
     run (quadkey_to_tile_coordinates quadkey) = (Returned (xv, yv), [])
     /\ forall i : Z, 1 <= i <= n ->
          exists d : ascii,
            String.get (Z.to_nat (n - i)) quadkey = Some d
            /\ (bit_set xv (Z.shiftl 1 (i - 1)) = true <-> d = "1"%char \/ d = "3"%char)
            /\ (bit_set yv (Z.shiftl 1 (i - 1)) = true <-> d = "2"%char \/ d = "3"%char))
  /\ run (quadkey_to_tile_coordinates "123") = (Returned (5, 3), []).
Proof.
  intros n. split; [|reflexivity].
  destruct (decode_spec quadkey) as (xv & yv & Hrun & _ & _ & Hbits).
  exists xv, yv. split.
  - rewrite Hrun. apply all_valid_invalid_count in Hvalid. now rewrite Hvalid.
  - intros i Hi. destruct (Hbits i Hi) as (d & Hd & Hx & Hy).
    exists d. split; [assumption|].
    rewrite Hx, Hy. split; [apply sets_x_iff|apply sets_y_iff].
Qed.

Lemma quadkey_digit_bits_witness :
  all_valid "123" = true
  /\ run (quadkey_to_tile_coordinates "123") = (Returned (5, 3), []).
Proof. split; [reflexivity|exact (proj2 (quadkey_digit_bits "123" eq_refl))]. Defined.

(** C10. For a quadkey of length n over the digits '0'..'3' the decoder
    returns non-negative integers x and y, each at most 2^n - 1; the empty
    string decodes to (0, 0). *)
Theorem quadkey_coordinate_bounds (quadkey : string) (Hvalid : all_valid quadkey = true) :
  let n := Z.of_nat (String.length quadkey) in
  (exists xv yv : Z,
     run (quadkey_to_tile_coordinates quadkey) = (Returned (xv, yv), [])
     /\ 0 <= xv <= 2 ^ n - 1 /\ 0 <= yv <= 2 ^ n - 1)
  /\ run (quadkey_to_tile_coordinates "") = (Returned (0, 0), []).
Proof.
  intros n. split; [|reflexivity].
  destruct (decode_spec quadkey) as (xv & yv & Hrun & Hx & Hy & _).
  exists xv, yv. fold n in Hx, Hy.
  apply all_valid_invalid_count in Hvalid. rewrite Hvalid in Hrun.
  repeat split; first [assumption | lia].
Qed.

Lemma quadkey_coordinate_bounds_witness :
  all_valid "3021" = true
  /\ exists xv yv : Z,
       run (quadkey_to_tile_coordinates "3021") = (Returned (xv, yv), [])
       /\ 0 <= xv <= 15 /\ 0 <= yv <= 15.
Proof. split; [reflexivity|exact (proj1 (quadkey_coordinate_bounds "3021" eq_refl))]. Defined.

(** C2, as the specification states it, fails: on "15" the decoder returns a
    coordinate and raises nothing. *)
Lemma invalid_digit_not_raised :
  all_valid "15" = false
  /\ ~ (exists e, (run (quadkey_to_tile_coordinates "15")).1 = Raised e)
  /\ returns (run (quadkey_to_tile_coordinates "15")).1.
Proof.
  split; [reflexivity|]. split.
  - intros [e He]. discriminate He.
  - now exists (2, 0).
Qed.

(** The decoder on code points is the decoder on one-byte characters, each
    code point seen as one of the four digits or as something else. *)
Lemma io_for_each_ext {S I : Type} (f g : S -> I -> io S) :
  (forall st i out, f st i out = g st i out) ->
  forall (items : list I) (st : S) (out : list string),
    io_for_each f st items out = io_for_each g st items out.
Proof.
  intros Hfg items. induction items as [|i rest IH]; intros st out; [reflexivity|].
  cbn [io_for_each]. unfold mbind, io_bind. rewrite Hfg.
  destruct (g st i out) as [[st'|e] out']; [apply IH|reflexivity].
Qed.

Lemma squash_str_length (s : list N) :
  String.length (QuadkeyStr.squash_str s) = length s.
Proof. induction s as [|c s IH]; cbn; [reflexivity|now rewrite IH]. Qed.

Lemma squash_str_get (s : list N) :
  forall k : nat,
    String.get k (QuadkeyStr.squash_str s) = QuadkeyStr.squash <$> (s !! k).
Proof.
  induction s as [|c s IH]; intros k; [reflexivity|].
  destruct k as [|k]; [reflexivity|]. cbn [QuadkeyStr.squash_str String.get]. apply IH.
Qed.

Lemma squash_str_app (p s : list N) :
  QuadkeyStr.squash_str (p ++ s) = QuadkeyStr.squash_str p +:+ QuadkeyStr.squash_str s.
Proof.
  induction p as [|c p IH]; [reflexivity|].
  change (String (QuadkeyStr.squash c) (QuadkeyStr.squash_str (p ++ s))
          = String (QuadkeyStr.squash c)
              (QuadkeyStr.squash_str p +:+ QuadkeyStr.squash_str s)).
  now f_equal.
Qed.

Lemma str_getitem_squash (s : list N) (i : Z) :
  str_getitem (QuadkeyStr.squash_str s) i
  = match pystr_getitem s i with
    | Returned c => Returned (QuadkeyStr.squash c)
    | Raised e => Raised e
    end.
Proof.
  unfold str_getitem, pystr_getitem. rewrite squash_str_length, squash_str_get.
  destruct ((0 <=? _) && (_ <? _)); [|reflexivity].
  now destruct (s !! _).
Qed.

Lemma body_squash (s : list N) (n : Z) (c : coords) (i : Z) (out : list string) :
  QuadkeyStr.body s n c i out = body (QuadkeyStr.squash_str s) n c i out.
Proof.
  unfold QuadkeyStr.body, body, lift_outcome, mbind, io_bind.
  rewrite str_getitem_squash.
  destruct (pystr_getitem s (n - i)) as [d|e]; [|reflexivity].
  unfold QuadkeyStr.squash.
  destruct (N.eqb d (ord "0")); [reflexivity|].
  destruct (N.eqb d (ord "1")); [reflexivity|].
  destruct (N.eqb d (ord "2")); [reflexivity|].
  destruct (N.eqb d (ord "3")); reflexivity.
Qed.

Lemma decode_squash (quadkey : list N) :
  run (QuadkeyStr.quadkey_to_tile_coordinates quadkey)
  = run (quadkey_to_tile_coordinates (QuadkeyStr.squash_str quadkey)).
Proof.
  unfold run, QuadkeyStr.quadkey_to_tile_coordinates, quadkey_to_tile_coordinates.
  rewrite squash_str_length. unfold mbind, io_bind.
  now rewrite (io_for_each_ext _ _ (body_squash quadkey (Z.of_nat (length quadkey)))).
Qed.

Lemma squash_valid (c : N) : valid_digit (QuadkeyStr.squash c) = QuadkeyStr.is_digit c.
Proof.
  unfold QuadkeyStr.squash, QuadkeyStr.is_digit.
  destruct (N.eqb c (ord "0")); [reflexivity|].
  destruct (N.eqb c (ord "1")); [reflexivity|].
  destruct (N.eqb c (ord "2")); [reflexivity|].
  destruct (N.eqb c (ord "3")); reflexivity.
Qed.

Lemma squash_sets_x (c : N) :
  sets_x (QuadkeyStr.squash c) = true <-> c = ord "1" \/ c = ord "3".
Proof.
  unfold QuadkeyStr.squash.
  destruct (N.eqb_spec c (ord "0")) as [->|H0]; [cbn; split; [discriminate|intros [|]; discriminate]|].
  destruct (N.eqb_spec c (ord "1")) as [->|H1]; [cbn; split; auto|].
  destruct (N.eqb_spec c (ord "2")) as [->|H2]; [cbn; split; [discriminate|intros [|]; discriminate]|].
  destruct (N.eqb_spec c (ord "3")) as [->|H3]; [cbn; split; auto|].
  cbn. split; [discriminate|intros [|]; contradiction].
Qed.

Lemma squash_sets_y (c : N) :
  sets_y (QuadkeyStr.squash c) = true <-> c = ord "2" \/ c = ord "3".
Proof.
  unfold QuadkeyStr.squash.
  destruct (N.eqb_spec c (ord "0")) as [->|H0]; [cbn; split; [discriminate|intros [|]; discriminate]|].
  destruct (N.eqb_spec c (ord "1")) as [->|H1]; [cbn; split; [discriminate|intros [|]; discriminate]|].
  destruct (N.eqb_spec c (ord "2")) as [->|H2]; [cbn; split; auto|].
  destruct (N.eqb_spec c (ord "3")) as [->|H3]; [cbn; split; auto|].
  cbn. split; [discriminate|intros [|]; contradiction].
Qed.

Lemma squash_invalid_count (s : list N) :
  invalid_count (QuadkeyStr.squash_str s) = QuadkeyStr.invalid_count s.
Proof.
  unfold QuadkeyStr.invalid_count.
  induction s as [|c s IH]; [reflexivity|].
  cbn [QuadkeyStr.squash_str invalid_count List.filter]. rewrite squash_valid, IH.
  now destruct (QuadkeyStr.is_digit c).
Qed.

Lemma invalid_count_pos (s : list N) :
  forallb QuadkeyStr.is_digit s = false -> (0 < QuadkeyStr.invalid_count s)%nat.
Proof.
  unfold QuadkeyStr.invalid_count.
  induction s as [|c s IH]; [discriminate|].
  cbn [forallb List.filter]. destruct (QuadkeyStr.is_digit c); cbn; [exact IH|lia].
Qed.

(** C2, amended. On every Python string with a character outside '0'..'3'
    the decoder does not fail: it returns, having printed the fixed line
    "[ERROR] Invalid quadkey digit sequence." once per such character (so at
    least once); both coordinates are non-negative and below 2^n; and for
    each position i from n down to 1 the bit [1 << (i-1)] of x (of y) is set
    iff the character at index n-i is '1' or '3' ('2' or '3'), so that a
    character outside '0'..'3' sets no bit.  "15" gives (2, 0) and one
    printed line. *)
Theorem invalid_digit_logged (quadkey : list N)
    (Hinvalid : forallb QuadkeyStr.is_digit quadkey = false) :
  let n := Z.of_nat (length quadkey) in
  (exists xv yv : Z,
     run (QuadkeyStr.quadkey_to_tile_coordinates quadkey)
     = (Returned (xv, yv), repeat error_line (QuadkeyStr.invalid_count quadkey))
     /\ (0 < QuadkeyStr.invalid_count quadkey)%nat
     /\ 0 <= xv < 2 ^ n /\ 0 <= yv < 2 ^ n
     /\ forall i : Z, 1 <= i <= n ->
          exists c : N,
            quadkey !! Z.to_nat (n - i) = Some c
            /\ (bit_set xv (Z.shiftl 1 (i - 1)) = true <-> c = ord "1" \/ c = ord "3")
            /\ (bit_set yv (Z.shiftl 1 (i - 1)) = true <-> c = ord "2" \/ c = ord "3"))
  /\ run (QuadkeyStr.quadkey_to_tile_coordinates [ord "1"; ord "5"])
     = (Returned (2, 0), [error_line]).
Proof.
  intros n. split; [|reflexivity].
  destruct (decode_spec (QuadkeyStr.squash_str quadkey))
    as (xv & yv & Hrun & Hx & Hy & Hbits).
  rewrite squash_str_length in Hx, Hy, Hbits. fold n in Hx, Hy, Hbits.
  exists xv, yv. repeat split; try (apply Hx || apply Hy).
  - now rewrite decode_squash, Hrun, squash_invalid_count.
  - now apply invalid_count_pos.
  - intros i Hi. destruct (Hbits i Hi) as (d & Hd & Hxd & Hyd).
    rewrite squash_str_get in Hd.
    destruct (quadkey !! Z.to_nat (n - i)) as [c|]; [|discriminate Hd].
    injection Hd as <-. exists c. split; [reflexivity|].
    rewrite Hxd, Hyd. split; [apply squash_sets_x|apply squash_sets_y].
Qed.

Lemma invalid_digit_logged_witness :
  forallb QuadkeyStr.is_digit [ord "1"; 8364%N; ord "3"] = false
  /\ exists xv yv : Z,
       run (QuadkeyStr.quadkey_to_tile_coordinates [ord "1"; 8364%N; ord "3"])
       = (Returned (xv, yv), repeat error_line 1).
Proof.
  split; [reflexivity|].
  destruct (proj1 (invalid_digit_logged [ord "1"; 8364%N; ord "3"] eq_refl))
    as (xv & yv & Hrun & _).
  exists xv, yv. exact Hrun.
Defined.

End QuadkeyFacts.

(** ** The Mercator projection *)

Section MercatorFacts.
Import Mercator.
Context `{Numpy}.

(** C9. The forward projection returns (y, x) with x = R*lon*pi/180 and
    y = R*ln(tan(pi/4 + lat*pi/360)); the inverse returns
    lon = x/R*180/pi and lat = (2*atan(exp(y/R)) - pi/2)*180/pi; both with
    R = 6378137.  The operations are those of binary64, applied left to
    right as written. *)
Theorem mercator_formulas (lon lat yv xv : float) :
  let R := 6378137%float in
  spherical_to_mercator_coordinates lon lat
  = ((R * np_log (np_tan (np_pi / 4 + lat * np_pi / 360)))%float,
     (R * lon * np_pi / 180)%float)
  /\ mercator_to_spherical_coordinates yv xv
     = ((xv / R * 180 / np_pi)%float,
        ((2 * np_arctan (np_exp (yv / R)) - np_pi / 2) * 180 / np_pi)%float).
Proof. split; reflexivity. Qed.

End MercatorFacts.

(** The longitude half needs no elementary function and can be evaluated:
    the antimeridian is half the world circumference away. *)
#[warnings="-inexact-float"]
Example mercator_antimeridian :
  snd (@Mercator.spherical_to_mercator_coordinates coarse_numpy 180 0)
  = 20037508.34278924%float.
Proof. vm_compute. reflexivity. Qed.

(** ** The round trip through the projection *)

Section RoundTripFacts.
Import Mercator RoundTrip.









End RoundTripFacts.


(** ** Tile geometry *)

Section TileFacts.
Import Mercator Tile.
Context `{Numpy}.

Lemma tile_length_domain (z : Z) : 1 <= z <= 16 -> is_Some (tile_length !! z).
Proof.
  intros Hz.
  assert (Hcases : z = 1 \/ z = 2 \/ z = 3 \/ z = 4 \/ z = 5 \/ z = 6 \/ z = 7 \/ z = 8
                   \/ z = 9 \/ z = 10 \/ z = 11 \/ z = 12 \/ z = 13 \/ z = 14
                   \/ z = 15 \/ z = 16) by lia.
  repeat (destruct Hcases as [->|Hcases]; [eexists; vm_compute; reflexivity|]).
  subst z. eexists; vm_compute; reflexivity.
Qed.

Lemma tile_length_outside (z : Z) : ~ (1 <= z <= 16) -> tile_length !! z = None.
Proof.
  intros Hz. unfold tile_length. apply not_elem_of_list_to_map_1.
  cbn [fmap list_fmap fst]. intros Hin.
  repeat (apply elem_of_cons in Hin as [Hin|Hin]; [lia|]).
  inversion Hin.
Qed.

(** C4. For a zoom level z in 1..16 the edge length is found in the table,
    where it is 20015089.262170314752 / 2^(z-1), and with the centre
    projected to x = R*lon*pi/180, y = R*ln(tan(pi/4 + lat*pi/360)) the
    result is exactly the four corners (y+len/2, x-len/2),
    (y+len/2, x+len/2), (y-len/2, x-len/2), (y-len/2, x+len/2), each
    converted back by lon = x/R*180/pi, lat = (2*atan(exp(y/R)) - pi/2)*180/pi,
    in the order top-left, top-right, bottom-left, bottom-right. *)
#[warnings="-inexact-float"]
Theorem tile_vertices_corners (lon lat : float) (tile_size : Z)
    (Hzoom : 1 <= tile_size <= 16) :
  let R := 6378137%float in
  let length := (20015089.262170314752 / Z.ldexp 1 (tile_size - 1))%float in
  let xv := (R * lon * np_pi / 180)%float in
  let yv := (R * np_log (np_tan (np_pi / 4 + lat * np_pi / 360)))%float in
  let to_spherical := fun yy xx : float =>
    ((xx / R * 180 / np_pi)%float,
     ((2 * np_arctan (np_exp (yy / R)) - np_pi / 2) * 180 / np_pi)%float) in
  tile_length !! tile_size = Some length
  /\ get_tile_vertices lon lat tile_size
     = Returned
         (to_spherical (yv + length / 2)%float (xv - length / 2)%float,
          to_spherical (yv + length / 2)%float (xv + length / 2)%float,
          to_spherical (yv - length / 2)%float (xv - length / 2)%float,
          to_spherical (yv - length / 2)%float (xv + length / 2)%float).
Proof.
  intros R length xv yv to_spherical.
  assert (Hlen : tile_length !! tile_size = Some length).
  { subst length.
    assert (Hcases : tile_size = 1 \/ tile_size = 2 \/ tile_size = 3 \/ tile_size = 4
                     \/ tile_size = 5 \/ tile_size = 6 \/ tile_size = 7 \/ tile_size = 8
                     \/ tile_size = 9 \/ tile_size = 10 \/ tile_size = 11
                     \/ tile_size = 12 \/ tile_size = 13 \/ tile_size = 14
                     \/ tile_size = 15 \/ tile_size = 16) by lia.
    repeat (destruct Hcases as [->|Hcases]; [vm_compute; reflexivity|]).
    subst tile_size. vm_compute; reflexivity. }
  split; [exact Hlen|].
  unfold get_tile_vertices, dict_getitem. rewrite Hlen. reflexivity.
Qed.

(** C5, amended. For a zoom level outside 1..16 the table lookup raises
    [KeyError] carrying the zoom level that was asked for, and no vertex
    quad is returned. *)
Theorem tile_vertices_key_error (lon lat : float) (tile_size : Z)
    (Hzoom : ~ (1 <= tile_size <= 16)) :
  get_tile_vertices lon lat tile_size = Raised (KeyError (KInt tile_size))
  /\ ~ returns (get_tile_vertices lon lat tile_size).
Proof.
  assert (Hraise : get_tile_vertices lon lat tile_size = Raised (KeyError (KInt tile_size))).
  { unfold get_tile_vertices, dict_getitem.
    now rewrite (tile_length_outside tile_size Hzoom). }
  split; [assumption|].
  intros [quad Hquad]. congruence.
Qed.

End TileFacts.

#[warnings="-inexact-float"]
Lemma tile_vertices_corners_witness :
  1 <= 16 <= 16
  /\ Tile.tile_length !! 16 = Some (20015089.262170314752 / Z.ldexp 1 (16 - 1))%float
  /\ returns (@Tile.get_tile_vertices coarse_numpy 10 50 16).
Proof.
  split; [lia|].
  destruct (@tile_vertices_corners coarse_numpy 10 50 16 ltac:(lia)) as [Hlen Hquad].
  split; [exact Hlen|].
  eexists. exact Hquad.
Defined.

(** C5, as the specification states it, fails: at zoom levels 0 and 17 the
    failure is a [KeyError], not an UnsupportedZoomLevel error, and what it
    carries is the key, not the valid range. *)
Lemma zoom_error_is_key_error :
  @Tile.get_tile_vertices coarse_numpy 10 50 0 = Raised (KeyError (KInt 0))
  /\ @Tile.get_tile_vertices coarse_numpy 10 50 17 = Raised (KeyError (KInt 17))
  /\ ~ raises_class "UnsupportedZoomLevel" (@Tile.get_tile_vertices coarse_numpy 10 50 0)
  /\ ~ raises_class "UnsupportedZoomLevel" (@Tile.get_tile_vertices coarse_numpy 10 50 17).
Proof.
  assert (H0 : @Tile.get_tile_vertices coarse_numpy 10 50 0 = Raised (KeyError (KInt 0)))
    by (vm_compute; reflexivity).
  assert (H17 : @Tile.get_tile_vertices coarse_numpy 10 50 17 = Raised (KeyError (KInt 17)))
    by (vm_compute; reflexivity).
  repeat split; try assumption.
  - intros (e & He & Hcls). rewrite H0 in He. injection He as <-. discriminate Hcls.
  - intros (e & He & Hcls). rewrite H17 in He. injection He as <-. discriminate Hcls.
Qed.

Lemma tile_vertices_key_error_witness :
  ~ (1 <= 17 <= 16)
  /\ @Tile.get_tile_vertices coarse_numpy 10 50 17 = Raised (KeyError (KInt 17)).
Proof.
  split; [lia|].
  exact (proj1 (@tile_vertices_key_error coarse_numpy 10 50 17 ltac:(lia))).
Defined.

(** ** Geodesic distance *)

Section GeodesicFacts.
Import Geodesic.
Context `{VincentyLib}.

(** [orthodrome_length] returns a number exactly when [vincenty] does. *)
Lemma orthodrome_returns_inv (lat1 lon1 lat2 lon2 r : float) :
  orthodrome_length lat1 lon1 lat2 lon2 = Returned r ->
  exists d : float,
    vincenty (lat1, lon1) (lat2, lon2) = Returned (Some d) /\ r = (d * 1000)%float.
Proof.
  unfold orthodrome_length.
  destruct (vincenty (lat1, lon1) (lat2, lon2)) as [[d|]|e]; cbn; intros Hr;
    try discriminate.
  injection Hr as <-. now exists d.
Qed.

(** C8. When [vincenty] converges to a distance [d] (in kilometres),
    [orthodrome_length] returns [d * 1000]; so with the package's value for
    one degree of longitude on the equator, 111.319491 km,
    [orthodrome_length 0 0 0 1] is within a hundredth of 111319.49. *)
Theorem orthodrome_scaled (lat1 lon1 lat2 lon2 d : float)
    (Hconv : vincenty (lat1, lon1) (lat2, lon2) = Returned (Some d)) :
  orthodrome_length lat1 lon1 lat2 lon2 = Returned (d * 1000)%float
  /\ (vincenty (0, 0)%float (0, 1)%float = Returned (Some equator_degree_km) ->
      exists r : float,
        orthodrome_length 0 0 0 1 = Returned r /\ approx r equator_degree_m = true).
Proof.
  split.
  - unfold orthodrome_length. now rewrite Hconv.
  - intros Heq. exists (equator_degree_km * 1000)%float. split.
    + unfold orthodrome_length. now rewrite Heq.
    + vm_compute. reflexivity.
Qed.

(** C7, amended. When [vincenty] reports non-convergence, which the package
    does by returning [None], [orthodrome_length] does nothing about it: the
    product [None * 1000] raises a [TypeError], and no number is returned. *)
Theorem orthodrome_non_convergence (lat1 lon1 lat2 lon2 : float)
    (Hdiv : vincenty (lat1, lon1) (lat2, lon2) = Returned None) :
  orthodrome_length lat1 lon1 lat2 lon2 = Raised none_times_int
  /\ ~ returns (orthodrome_length lat1 lon1 lat2 lon2).
Proof.
  assert (Hraise : orthodrome_length lat1 lon1 lat2 lon2 = Raised none_times_int)
    by (unfold orthodrome_length; now rewrite Hdiv).
  split; [assumption|].
  intros [r Hr]. congruence.
Qed.

End GeodesicFacts.

Lemma orthodrome_scaled_witness :
  @Geodesic.vincenty Geodesic.sample_vincenty (0, 0)%float (0, 1)%float
  = Returned (Some Geodesic.equator_degree_km)
  /\ exists r : float,
       @Geodesic.orthodrome_length Geodesic.sample_vincenty 0 0 0 1 = Returned r
       /\ Geodesic.approx r Geodesic.equator_degree_m = true.
Proof.
  split; [reflexivity|].
  exact (proj2 (@orthodrome_scaled Geodesic.sample_vincenty 0 0 0 1
                  Geodesic.equator_degree_km eq_refl) eq_refl).
Defined.

(** C7, as the specification states it, fails: for a pair on which the
    package gives [None], what is raised is a [TypeError], not a
    GeodesicNonConvergence error. *)
Lemma non_convergence_is_type_error :
  @Geodesic.vincenty Geodesic.sample_vincenty (0, 0)%float (0.5, 179.75)%float
  = Returned None
  /\ raises_class "TypeError"
       (@Geodesic.orthodrome_length Geodesic.sample_vincenty 0 0 0.5 179.75)
  /\ ~ raises_class "GeodesicNonConvergence"
       (@Geodesic.orthodrome_length Geodesic.sample_vincenty 0 0 0.5 179.75).
Proof.
  split; [reflexivity|]. split.
  - eexists. split; reflexivity.
  - intros (e & He & Hcls). vm_compute in He. injection He as <-. discriminate Hcls.
Qed.

Lemma orthodrome_non_convergence_witness :
  @Geodesic.vincenty Geodesic.sample_vincenty (0, 0)%float (0.5, 179.75)%float
  = Returned None
  /\ @Geodesic.orthodrome_length Geodesic.sample_vincenty 0 0 0.5 179.75
     = Raised Geodesic.none_times_int.
Proof.
  split; [reflexivity|].
  exact (proj1 (@orthodrome_non_convergence Geodesic.sample_vincenty 0 0 0.5 179.75
                  eq_refl)).
Defined.

(** ** Attribute search *)

Lemma for_each_ext {S I : Type} (f g : S -> I -> outcome S) :
  (forall st i, f st i = g st i) ->
  forall (items : list I) (st : S), for_each f st items = for_each g st items.
Proof.
  intros Hfg items. induction items as [|i rest IH]; intros st; [reflexivity|].
  cbn [for_each]. rewrite Hfg. destruct (g st i); [apply IH|reflexivity].
Qed.

Lemma for_each_app {S I : Type} (f : S -> I -> outcome S) (l1 l2 : list I) :
  forall st : S,
    for_each f st (l1 ++ l2) = (st' ← for_each f st l1; for_each f st' l2).
Proof.
  induction l1 as [|i l1 IH]; intros st; [reflexivity|].
  cbn [app for_each]. destruct (f st i) as [st'|e]; [apply IH|reflexivity].
Qed.

Section SearchFacts.
Import Search.
Context {node V : Type} (val_eq : V -> V -> bool).

(** The scan of one element either agrees with the specification's matching
    relation or stops at a queried key the element does not have. *)
Lemma all_items_equal_spec (data : gmap string V) (kwargs : list (string * V)) :
  match all_items_equal val_eq data kwargs with
  | Returned ok => ok = spec_matches val_eq data kwargs
  | Raised e =>
      exists key : string,
        e = KeyError (KStr key) /\ In key (map fst kwargs) /\ data !! key = None
  end.
Proof.
  induction kwargs as [|[key value] rest IH]; [reflexivity|].
  cbn [all_items_equal spec_matches forallb map fst]. unfold attr_getitem.
  destruct (data !! key) as [d|] eqn:Hkey; cbn [mbind outcome_bind].
  - destruct (val_eq d value); cbn [andb]; [|reflexivity].
    destruct (all_items_equal val_eq data rest) as [ok|e]; [exact IH|].
    cbn beta iota in IH. destruct IH as (k & -> & Hin & Hnone).
    exists k. auto using in_cons.
  - exists key. auto using in_eq.
Qed.

Lemma all_items_equal_total (data : gmap string V) (kwargs : list (string * V)) :
  has_keys data kwargs ->
  all_items_equal val_eq data kwargs = Returned (spec_matches val_eq data kwargs).
Proof.
  induction 1 as [|[key value] rest [d Hd] _ IH]; [reflexivity|].
  cbn [all_items_equal spec_matches forallb]. unfold attr_getitem. rewrite Hd.
  cbn [mbind outcome_bind]. destruct (val_eq d value); [exact IH|reflexivity].
Qed.

Lemma scan_partial {X : Type} (attrs_of : X -> gmap string V)
    (kwargs : list (string * V)) (items : list X) :
  forall found : list X,
    match for_each (scan val_eq attrs_of kwargs) found items with
    | Returned r =>
        r = found ++ List.filter (fun it => spec_matches val_eq (attrs_of it) kwargs) items
    | Raised e =>
        exists (key : string) (it : X),
          e = KeyError (KStr key) /\ In key (map fst kwargs)
          /\ In it items /\ attrs_of it !! key = None
    end.
Proof.
  induction items as [|it rest IH]; intros found.
  - cbn. now rewrite app_nil_r.
  - cbn [for_each List.filter]. unfold scan at 1.
    pose proof (all_items_equal_spec (attrs_of it) kwargs) as Hscan.
    destruct (all_items_equal val_eq (attrs_of it) kwargs) as [ok|e];
      cbn [mbind outcome_bind mret outcome_ret].
    + rewrite <- Hscan. specialize (IH (if ok then found ++ [it] else found)).
      destruct (for_each (scan val_eq attrs_of kwargs) _ rest) as [r|e]; cbn beta iota in IH.
      * rewrite IH. destruct ok; [now rewrite <- app_assoc|reflexivity].
      * destruct IH as (key & it' & -> & Hkey & Hin & Hnone).
        exists key, it'. auto using in_cons.
    + destruct Hscan as (key & -> & Hkey & Hnone).
      exists key, it. auto using in_eq.
Qed.

Lemma scan_total {X : Type} (attrs_of : X -> gmap string V)
    (kwargs : list (string * V)) (items : list X) :
  Forall (fun it => has_keys (attrs_of it) kwargs) items ->
  for_each (scan val_eq attrs_of kwargs) [] items
  = Returned (List.filter (fun it => spec_matches val_eq (attrs_of it) kwargs) items).
Proof.
  intros Hkeys. pose proof (scan_partial attrs_of kwargs items []) as Hscan.
  destruct (for_each (scan val_eq attrs_of kwargs) [] items) as [r|e]; cbn beta iota in Hscan;
    [now rewrite Hscan|].
  destruct Hscan as (key & it & _ & Hkey & Hin & Hnone). exfalso.
  rewrite Forall_forall in Hkeys. apply list_elem_of_In, Hkeys in Hin.
  unfold has_keys in Hin. rewrite Forall_forall in Hin.
  apply in_map_iff in Hkey as ([k v] & <- & Hkv).
  apply list_elem_of_In, Hin in Hkv. cbn [fst] in Hnone.
  destruct Hkv as [d Hd]. congruence.
Qed.

Lemma search_edges_scan (graph : @DiGraph node V) (kwargs : list (string * V)) :
  search_edges val_eq graph kwargs
  = for_each (scan val_eq (fun e : node * node * gmap string V => e.2) kwargs) []
      (edges_data graph).
Proof. apply for_each_ext. intros found [[id1 id2] data]. reflexivity. Qed.

Lemma search_nodes_scan (graph : @DiGraph node V) (kwargs : list (string * V)) :
  search_nodes val_eq graph kwargs
  = for_each (scan val_eq (fun n : node * gmap string V => n.2) kwargs) []
      (nodes_data graph).
Proof. apply for_each_ext. intros found [id data]. reflexivity. Qed.

(** The loop from any list of results already found. *)
Lemma scan_total_from {X : Type} (attrs_of : X -> gmap string V)
    (kwargs : list (string * V)) (items found : list X) :
  Forall (fun it => has_keys (attrs_of it) kwargs) items ->
  for_each (scan val_eq attrs_of kwargs) found items
  = Returned (found ++ List.filter (fun it => spec_matches val_eq (attrs_of it) kwargs) items).
Proof.
  intros Hkeys. revert found.
  induction Hkeys as [|it items Hit _ IH]; intros found.
  - cbn. now rewrite app_nil_r.
  - cbn [for_each List.filter]. unfold scan at 1.
    rewrite (all_items_equal_total _ _ Hit). cbn [mbind outcome_bind mret outcome_ret].
    rewrite IH. destruct (spec_matches val_eq (attrs_of it) kwargs);
      [now rewrite <- app_assoc|reflexivity].
Qed.

(** A query that names a key after a prefix the element satisfies, when the
    element does not have that key, raises for that key. *)
Lemma all_items_equal_fault (data : gmap string V) (pre post : list (string * V))
    (key : string) (value : V) :
  spec_matches val_eq data pre = true -> data !! key = None ->
  all_items_equal val_eq data (pre ++ (key, value) :: post) = Raised (KeyError (KStr key)).
Proof.
  intros Hpre Hkey. induction pre as [|[k v] pre IH].
  - cbn [app all_items_equal]. unfold attr_getitem. now rewrite Hkey.
  - cbn [spec_matches forallb] in Hpre. apply andb_true_iff in Hpre as [Hk Hrest].
    cbn [app all_items_equal]. unfold attr_getitem.
    destruct (data !! k) as [d|]; [|discriminate Hk].
    cbn [mbind outcome_bind]. rewrite Hk. now apply IH.
Qed.



End SearchFacts.



(** * Further properties of the code *)

(** ** Quadkeys as a numbering of the tile grid *)

Section QuadkeyGrid.
Import Quadkey.

Lemma decode_decoded (quadkey : string) :
  run (quadkey_to_tile_coordinates quadkey)
  = (Returned (x (decoded quadkey), y (decoded quadkey)),
     repeat error_line (invalid_count quadkey)).
Proof.
  rewrite decode_read. cbn zeta. unfold decoded. now rewrite read_digits_out.
Qed.

Lemma decoded_testbit (s : string) (j : Z) :
  0 <= j ->
  Z.testbit (x (decoded s)) j = digit_bit sets_x s j
  /\ Z.testbit (y (decoded s)) j = digit_bit sets_y s j.
Proof.
  intros Hj. unfold decoded, digit_bit.
  destruct (Z.ltb_spec j (Z.of_nat (String.length s))) as [Hlt|Hge].
  - destruct (string_get_some s (Z.to_nat (Z.of_nat (String.length s) - (j + 1)))
                ltac:(lia)) as [d Hd].
    destruct (read_digits_bits s {| x := 0; y := 0 |} [] (j + 1) d ltac:(lia) Hd)
      as [Hx Hy].
    replace (j + 1 - 1) with j in Hx, Hy by lia.
    replace (Z.of_nat (String.length s) - 1 - j)
      with (Z.of_nat (String.length s) - (j + 1)) by lia.
    rewrite Hx, Hy, Hd. cbn [x y]. now rewrite Z.bits_0.
  - destruct (read_digits_high s {| x := 0; y := 0 |} [] j Hge) as [-> ->].
    cbn [x y]. now rewrite Z.bits_0.
Qed.

Lemma digit_bit_append (f : ascii -> bool) (p s : string) (j : Z) :
  0 <= j ->
  digit_bit f (p +:+ s) j
  = if j <? Z.of_nat (String.length s) then digit_bit f s j
    else digit_bit f p (j - Z.of_nat (String.length s)).
Proof.
  intros Hj. unfold digit_bit. rewrite string_length_append.
  destruct (Z.ltb_spec j (Z.of_nat (String.length s))) as [Hlt|Hge].
  - destruct (Z.ltb_spec j (Z.of_nat (String.length p + String.length s))); [|lia].
    replace (Z.to_nat (Z.of_nat (String.length p + String.length s) - 1 - j))
      with (Z.to_nat (Z.of_nat (String.length s) - 1 - j) + String.length p)%nat by lia.
    now rewrite <- append_correct2.
  - replace (Z.to_nat (Z.of_nat (String.length p + String.length s) - 1 - j))
      with (Z.to_nat (Z.of_nat (String.length p) - 1 - (j - Z.of_nat (String.length s))))
      by lia.
    destruct (Z.ltb_spec j (Z.of_nat (String.length p + String.length s))) as [Hlt|Hge'];
      destruct (Z.ltb_spec (j - Z.of_nat (String.length s))
                  (Z.of_nat (String.length p))); try lia; try reflexivity.
    cbn [andb]. now rewrite <- append_correct1 by lia.
Qed.

Lemma decoded_bounds (s : string) :
  0 <= x (decoded s) < 2 ^ Z.of_nat (String.length s)
  /\ 0 <= y (decoded s) < 2 ^ Z.of_nat (String.length s).
Proof.
  destruct (read_digits_nonneg s {| x := 0; y := 0 |} [] ltac:(done) ltac:(done))
    as [Hx Hy]. fold (decoded s) in Hx, Hy.
  split; (split; [assumption|]).
  - apply Z.bounded_iff_bits_nonneg; [lia|assumption|]. intros j Hj.
    destruct (decoded_testbit s j ltac:(lia)) as [-> _]. unfold digit_bit.
    destruct (Z.ltb_spec j (Z.of_nat (String.length s))); [lia|reflexivity].
  - apply Z.bounded_iff_bits_nonneg; [lia|assumption|]. intros j Hj.
    destruct (decoded_testbit s j ltac:(lia)) as [_ ->]. unfold digit_bit.
    destruct (Z.ltb_spec j (Z.of_nat (String.length s))); [lia|reflexivity].
Qed.

(** A value below [2^n] packed under a multiple of [2^n]: bit by bit. *)
Lemma testbit_packed (hi lo n j : Z) :
  0 <= n -> 0 <= lo < 2 ^ n -> 0 <= j ->
  Z.testbit (hi * 2 ^ n + lo) j
  = if j <? n then Z.testbit lo j else Z.testbit hi (j - n).
Proof.
  intros Hn Hlo Hj.
  assert (Hhigh : forall k, n <= k -> Z.testbit lo k = false)
    by (apply Z.bounded_iff_bits_nonneg; lia).
  rewrite <- Z.shiftl_mul_pow2 by assumption.
  rewrite Z.add_nocarry_lor.
  - rewrite Z.lor_spec.
    destruct (Z.ltb_spec j n) as [Hlt|Hge].
    + now rewrite Z.shiftl_spec_low.
    + rewrite Z.shiftl_spec_high, Hhigh by lia. apply orb_false_r.
  - apply Z.bits_inj_0. intros k. rewrite Z.land_spec.
    destruct (Z.lt_ge_cases k n) as [Hlt|Hge].
    + now rewrite Z.shiftl_spec_low.
    + rewrite Hhigh by assumption. apply andb_false_r.
Qed.

Lemma decoded_append (p s : string) :
  x (decoded (p +:+ s)) = x (decoded p) * 2 ^ Z.of_nat (String.length s) + x (decoded s)
  /\ y (decoded (p +:+ s)) = y (decoded p) * 2 ^ Z.of_nat (String.length s) + y (decoded s).
Proof.
  destruct (decoded_bounds s) as [Hxs Hys].
  split; apply Z.bits_inj'; intros j Hj;
    rewrite testbit_packed by (assumption || lia).
  - destruct (decoded_testbit (p +:+ s) j Hj) as [-> _].
    rewrite digit_bit_append by assumption.
    destruct (Z.ltb_spec j (Z.of_nat (String.length s))).
    + now destruct (decoded_testbit s j Hj) as [-> _].
    + now destruct (decoded_testbit p (j - Z.of_nat (String.length s)) ltac:(lia))
        as [-> _].
  - destruct (decoded_testbit (p +:+ s) j Hj) as [_ ->].
    rewrite digit_bit_append by assumption.
    destruct (Z.ltb_spec j (Z.of_nat (String.length s))).
    + now destruct (decoded_testbit s j Hj) as [_ ->].
    + now destruct (decoded_testbit p (j - Z.of_nat (String.length s)) ltac:(lia))
        as [_ ->].
Qed.

Lemma invalid_count_append (p s : string) :
  invalid_count (p +:+ s) = (invalid_count p + invalid_count s)%nat.
Proof.
  induction p as [|d p IH]; [reflexivity|].
  change (((if valid_digit d then O else 1%nat) + invalid_count (p +:+ s))%nat
          = ((if valid_digit d then O else 1%nat) + invalid_count p + invalid_count s)%nat).
  lia.
Qed.

Lemma all_valid_append (p s : string) :
  all_valid (p +:+ s) = all_valid p && all_valid s.
Proof.
  induction p as [|d p IH]; [reflexivity|].
  change (valid_digit d && all_valid (p +:+ s)
          = valid_digit d && all_valid p && all_valid s).
  now rewrite <- andb_assoc; f_equal.
Qed.

(** Decoding a concatenation: the prefix names a tile at its own zoom level,
    the suffix the position inside it.  If [p] decodes to (xp, yp) and [s]
    to (xs, ys), then [p + s] decodes to
    (xp * 2^len(s) + xs, yp * 2^len(s) + ys), and prints the lines of [p]
    followed by those of [s].  Holds for all Python strings, [len] counting
    characters. *)
Theorem quadkey_concat (p s : list N) (xp yp xs ys : Z) (outp outs : list string)
    (Hp : run (QuadkeyStr.quadkey_to_tile_coordinates p) = (Returned (xp, yp), outp))
    (Hs : run (QuadkeyStr.quadkey_to_tile_coordinates s) = (Returned (xs, ys), outs)) :
  run (QuadkeyStr.quadkey_to_tile_coordinates (p ++ s))
  = (Returned (xp * 2 ^ Z.of_nat (length s) + xs,
               yp * 2 ^ Z.of_nat (length s) + ys),
     outp ++ outs).
Proof.
  rewrite decode_squash, decode_decoded in Hp, Hs.
  rewrite decode_squash, squash_str_app, decode_decoded.
  injection Hp as <- <- <-. injection Hs as <- <- <-.
  destruct (decoded_append (QuadkeyStr.squash_str p) (QuadkeyStr.squash_str s))
    as [-> ->].
  now rewrite invalid_count_append, repeat_app, squash_str_length.
Qed.

Lemma quadkey_concat_witness :
  run (QuadkeyStr.quadkey_to_tile_coordinates ([ord "1"] ++ [ord "2"; 8364%N; ord "3"]))
  = (Returned (1 * 2 ^ Z.of_nat 3 + 1, 0 * 2 ^ Z.of_nat 3 + 5), [] ++ [error_line]).
Proof.
  exact (quadkey_concat [ord "1"] [ord "2"; 8364%N; ord "3"] 1 0 1 5 [] [error_line]
           eq_refl eq_refl).
Defined.

Lemma string_get_none (s : string) (k : nat) :
  (String.length s <= k)%nat -> String.get k s = None.
Proof.
  intros Hk. destruct (String.get k s) as [d|] eqn:Hget; [|reflexivity].
  apply string_get_lt in Hget. lia.
Qed.

Lemma digit_determined (d1 d2 : ascii) :
  valid_digit d1 = true -> valid_digit d2 = true ->
  sets_x d1 = sets_x d2 -> sets_y d1 = sets_y d2 -> d1 = d2.
Proof.
  unfold valid_digit. rewrite !orb_true_iff, !Ascii.eqb_eq.
  intros [[[-> | ->] | ->] | ->] [[[-> | ->] | ->] | ->] Hx Hy;
    first [reflexivity | discriminate Hx | discriminate Hy].
Qed.

(** Two quadkeys over '0'..'3' of the same length that decode to the same
    tile are the same string: at a given zoom level the decoder loses
    nothing. *)
Theorem quadkey_injective (p q : string)
    (Hp : all_valid p = true) (Hq : all_valid q = true)
    (Hlen : String.length p = String.length q)
    (Hsame : (run (quadkey_to_tile_coordinates p)).1
             = (run (quadkey_to_tile_coordinates q)).1) :
  p = q.
Proof.
  rewrite !decode_decoded in Hsame. cbn [fst] in Hsame. injection Hsame as Hx Hy.
  apply get_correct. intros k.
  destruct (Nat.lt_ge_cases k (String.length p)) as [Hlt|Hge].
  - destruct (string_get_some p k Hlt) as [d1 Hd1].
    destruct (string_get_some q k ltac:(lia)) as [d2 Hd2].
    rewrite Hd1, Hd2. f_equal.
    pose (j := Z.of_nat (String.length p) - 1 - Z.of_nat k).
    destruct (decoded_testbit p j ltac:(lia)) as [Hpx Hpy].
    destruct (decoded_testbit q j ltac:(lia)) as [Hqx Hqy].
    rewrite Hx, Hqx in Hpx. rewrite Hy, Hqy in Hpy.
    unfold digit_bit in Hpx, Hpy. rewrite <- Hlen in Hpx, Hpy.
    replace (Z.to_nat (Z.of_nat (String.length p) - 1 - j)) with k in Hpx, Hpy by lia.
    rewrite Hd1, Hd2 in Hpx, Hpy.
    destruct (Z.ltb_spec j (Z.of_nat (String.length p))); [|lia].
    cbn [andb] in Hpx, Hpy.
    apply digit_determined; eauto using string_get_valid.
  - now rewrite !string_get_none by lia.
Qed.

Lemma quadkey_injective_witness : "2013"%string = "2013"%string.
Proof. exact (quadkey_injective "2013" "2013" eq_refl eq_refl eq_refl eq_refl). Defined.

(** Across zoom levels the decoder does lose the length: a leading '0'
    changes neither coordinate nor what is printed. *)
Theorem quadkey_leading_zero (quadkey : string) :
  run (quadkey_to_tile_coordinates (String "0" quadkey))
  = run (quadkey_to_tile_coordinates quadkey).
Proof. rewrite !decode_decoded. reflexivity. Qed.

Lemma decoded_digit (bitx bity : bool) :
  x (decoded (String (digit_of_bits bitx bity) EmptyString)) = Z.b2z bitx
  /\ y (decoded (String (digit_of_bits bitx bity) EmptyString)) = Z.b2z bity.
Proof. now destruct bitx, bity. Qed.

Lemma quadkey_of_spec (n : nat) :
  forall xv yv : Z,
    0 <= xv < 2 ^ Z.of_nat n -> 0 <= yv < 2 ^ Z.of_nat n ->
    String.length (quadkey_of n xv yv) = n
    /\ all_valid (quadkey_of n xv yv) = true
    /\ x (decoded (quadkey_of n xv yv)) = xv
    /\ y (decoded (quadkey_of n xv yv)) = yv.
Proof.
  induction n as [|n IH]; intros xv yv Hx Hy.
  - cbn in Hx, Hy. cbn. repeat split; lia.
  - rewrite Nat2Z.inj_succ, Z.pow_succ_r in Hx, Hy by lia.
    destruct (IH (xv / 2) (yv / 2)) as (Hlen & Hvalid & Hxd & Hyd).
    { split; [apply Z.div_pos; lia|apply Z.div_lt_upper_bound; lia]. }
    { split; [apply Z.div_pos; lia|apply Z.div_lt_upper_bound; lia]. }
    cbn [quadkey_of].
    destruct (decoded_append (quadkey_of n (xv / 2) (yv / 2))
                (String (digit_of_bits (Z.odd xv) (Z.odd yv)) EmptyString)) as [Hxa Hya].
    rewrite Hxd in Hxa. rewrite Hyd in Hya.
    destruct (decoded_digit (Z.odd xv) (Z.odd yv)) as [Hxb Hyb].
    rewrite Hxb in Hxa. rewrite Hyb in Hya.
    change (Z.of_nat (String.length (String (digit_of_bits (Z.odd xv) (Z.odd yv))
                                       EmptyString))) with 1 in Hxa, Hya.
    rewrite Z.pow_1_r in Hxa, Hya.
    pose proof (Z.div2_odd xv) as Hxodd. pose proof (Z.div2_odd yv) as Hyodd.
    rewrite Z.div2_div in Hxodd, Hyodd.
    repeat split.
    + rewrite string_length_append, Hlen. cbn [String.length]. lia.
    + rewrite all_valid_append, Hvalid. now destruct (Z.odd xv), (Z.odd yv).
    + lia.
    + lia.
Qed.

(** Every tile of the 2^n by 2^n grid is the decoding of a quadkey of length
    n over '0'..'3' (which, by injectivity, is unique). *)
Theorem quadkey_onto (n : nat) (xv yv : Z)
    (Hx : 0 <= xv < 2 ^ Z.of_nat n) (Hy : 0 <= yv < 2 ^ Z.of_nat n) :
  exists quadkey : string,
    String.length quadkey = n
    /\ all_valid quadkey = true
    /\ run (quadkey_to_tile_coordinates quadkey) = (Returned (xv, yv), []).
Proof.
  destruct (quadkey_of_spec n xv yv Hx Hy) as (Hlen & Hvalid & Hxd & Hyd).
  exists (quadkey_of n xv yv). repeat split; try assumption.
  rewrite decode_decoded, Hxd, Hyd.
  apply all_valid_invalid_count in Hvalid. now rewrite Hvalid.
Qed.

Lemma quadkey_onto_witness :
  exists quadkey : string,
    String.length quadkey = 3%nat
    /\ all_valid quadkey = true
    /\ run (quadkey_to_tile_coordinates quadkey) = (Returned (5, 3), []).
Proof. apply (quadkey_onto 3 5 3); change (2 ^ Z.of_nat 3) with 8; lia. Defined.

End QuadkeyGrid.

(** ** Searching attributes *)

Lemma filter_filter_andb {A : Type} (f g : A -> bool) (l : list A) :
  List.filter (fun a => f a && g a) l = List.filter g (List.filter f l).
Proof.
  induction l as [|a l IH]; [reflexivity|].
  cbn [List.filter]. destruct (f a); cbn [andb List.filter]; [|exact IH].
  destruct (g a); now rewrite IH.
Qed.

Section SearchMore.
Import Search.
Context {node V : Type} (val_eq : V -> V -> bool).

Lemma has_keys_app (data : gmap string V) (kw1 kw2 : list (string * V)) :
  has_keys data (kw1 ++ kw2) <-> has_keys data kw1 /\ has_keys data kw2.
Proof. unfold has_keys. apply Forall_app. Qed.

Lemma spec_matches_app (data : gmap string V) (kw1 kw2 : list (string * V)) :
  spec_matches val_eq data (kw1 ++ kw2)
  = spec_matches val_eq data kw1 && spec_matches val_eq data kw2.
Proof. unfold spec_matches. apply forallb_app. Qed.

Lemma search_graphs_scan {G : Type} (graph_attrs : G -> gmap string V)
    (graphs : list G) (kwargs : list (string * V)) :
  search_graphs val_eq graph_attrs graphs kwargs
  = for_each (scan val_eq graph_attrs kwargs) [] graphs.
Proof. reflexivity. Qed.

(** [search_graphs], like the other two searches: when every graph carries
    every queried key the result is exactly the graphs whose attributes equal
    the query on every key, in the order of the input list; whatever it
    returns is that list; and the only failure is a [KeyError] for a queried
    key that some graph of the list lacks. *)
Theorem search_graphs_matches {G : Type} (graph_attrs : G -> gmap string V)
    (graphs : list G) (kwargs : list (string * V)) :
  (Forall (fun g => has_keys (graph_attrs g) kwargs) graphs ->
   search_graphs val_eq graph_attrs graphs kwargs
   = Returned (List.filter (fun g => spec_matches val_eq (graph_attrs g) kwargs) graphs))
  /\ match search_graphs val_eq graph_attrs graphs kwargs with
     | Returned r =>
         r = List.filter (fun g => spec_matches val_eq (graph_attrs g) kwargs) graphs
     | Raised e =>
         exists (key : string) (g : G),
           e = KeyError (KStr key) /\ In key (map fst kwargs)
           /\ In g graphs /\ graph_attrs g !! key = None
     end.
Proof.
  rewrite search_graphs_scan. split.
  - apply scan_total.
  - apply (scan_partial val_eq graph_attrs kwargs graphs []).
Qed.

(** A search without keyword arguments selects everything: all edges, all
    nodes, all graphs, in their order, and cannot fail. *)
Theorem search_without_criteria {G : Type} (graph : @DiGraph node V)
    (graph_attrs : G -> gmap string V) (graphs : list G) :
  search_edges val_eq graph [] = Returned (edges_data graph)
  /\ search_nodes val_eq graph [] = Returned (nodes_data graph)
  /\ search_graphs val_eq graph_attrs graphs [] = Returned graphs.
Proof.
  assert (Hall : forall (X : Type) (attrs_of : X -> gmap string V) (items : list X),
             for_each (scan val_eq attrs_of []) [] items = Returned items).
  { intros X attrs_of items. rewrite scan_total.
    - cbn [spec_matches forallb]. now rewrite filter_true.
    - apply Forall_forall. intros it _. constructor. }
  rewrite search_edges_scan, search_nodes_scan, search_graphs_scan.
  now rewrite !Hall.
Qed.

(** Queries compose: when every edge carries every key of both queries,
    searching for both at once gives the edges found for the first query
    that also satisfy the second, and the order in which the two groups of
    keyword arguments are passed does not matter. *)
Theorem search_edges_conjunction (graph : @DiGraph node V) (kw1 kw2 : list (string * V))
    (Hkeys : Forall (fun e => has_keys e.2 (kw1 ++ kw2)) (edges_data graph)) :
  exists found1 : list (node * node * gmap string V),
    search_edges val_eq graph kw1 = Returned found1
    /\ search_edges val_eq graph (kw1 ++ kw2)
       = Returned (List.filter (fun e => spec_matches val_eq e.2 kw2) found1)
    /\ search_edges val_eq graph (kw2 ++ kw1) = search_edges val_eq graph (kw1 ++ kw2).
Proof.
  assert (H1 : Forall (fun e : node * node * gmap string V => has_keys e.2 kw1)
                 (edges_data graph))
    by (eapply Forall_impl; [exact Hkeys|]; intros e He; now apply has_keys_app in He).
  assert (H21 : Forall (fun e : node * node * gmap string V => has_keys e.2 (kw2 ++ kw1))
                  (edges_data graph)).
  { eapply Forall_impl; [exact Hkeys|]. intros e He.
    apply has_keys_app in He. apply has_keys_app. tauto. }
  eexists. rewrite !search_edges_scan.
  rewrite !scan_total by assumption.
  split; [reflexivity|]. split.
  - f_equal. rewrite <- filter_filter_andb.
    apply filter_ext. intros e. apply spec_matches_app.
  - f_equal. apply filter_ext. intros e.
    rewrite !spec_matches_app. apply andb_comm.
Qed.

(** The missing-key fault, exactly where it happens: if the edges before
    some edge all carry every queried key, and that edge satisfies the
    keyword arguments that come before [key] but has no attribute [key], the
    search raises [KeyError] for [key]; the edges found so far are lost. *)
Theorem search_edges_missing_key (graph : @DiGraph node V)
    (before after : list (node * node * gmap string V))
    (id1 id2 : node) (data : gmap string V)
    (pre post : list (string * V)) (key : string) (value : V)
    (Hedges : edges_data graph = before ++ (id1, id2, data) :: after)
    (Hbefore : Forall (fun e => has_keys e.2 (pre ++ (key, value) :: post)) before)
    (Hpre : spec_matches val_eq data pre = true)
    (Hkey : data !! key = None) :
  search_edges val_eq graph (pre ++ (key, value) :: post) = Raised (KeyError (KStr key)).
Proof.
  rewrite search_edges_scan, Hedges, for_each_app.
  rewrite scan_total_from by assumption. cbn [mbind outcome_bind for_each].
  unfold scan at 1. cbn [snd].
  now rewrite all_items_equal_fault.
Qed.

End SearchMore.

Lemma search_graphs_matches_witness :
  Search.search_graphs Z.eqb (fun g : gmap string Z => g)
    [{["year" := 2020]}; {["year" := 2019]}; {["year" := 2020]}] [("year"%string, 2020)]
  = Returned [{["year" := 2020]}; {["year" := 2020]}].
Proof.
  refine (eq_trans
            (proj1 (@search_graphs_matches Z Z.eqb (gmap string Z) (fun g => g)
                      [{["year"%string := 2020]}; {["year"%string := 2019]};
                       {["year"%string := 2020]}] [("year"%string, 2020)]) _) _).
  - repeat constructor; vm_compute; eauto.
  - vm_compute. reflexivity.
Defined.

Lemma search_edges_conjunction_witness :
  exists found1 : list (Z * Z * gmap string Z),
    Search.search_edges Z.eqb Search.tagged_graph [("weight"%string, 7)] = Returned found1
    /\ Search.search_edges Z.eqb Search.tagged_graph
         ([("weight"%string, 7)] ++ [("kind"%string, 1)])
       = Returned (List.filter (fun e => Search.spec_matches Z.eqb e.2 [("kind"%string, 1)])
                     found1)
    /\ Search.search_edges Z.eqb Search.tagged_graph
         ([("kind"%string, 1)] ++ [("weight"%string, 7)])
       = Search.search_edges Z.eqb Search.tagged_graph
           ([("weight"%string, 7)] ++ [("kind"%string, 1)]).
Proof.
  apply (@search_edges_conjunction Z Z Z.eqb Search.tagged_graph
           [("weight"%string, 7)] [("kind"%string, 1)]).
  repeat constructor; vm_compute; eauto.
Defined.

Lemma search_edges_missing_key_witness :
  Search.search_edges Z.eqb Search.partly_tagged_graph
    ([("weight"%string, 7)] ++ ("kind"%string, 1) :: [])
  = Raised (KeyError (KStr "kind")).
Proof.
  apply (@search_edges_missing_key Z Z Z.eqb Search.partly_tagged_graph
           [(1, 2, <["kind"%string := 1]> {["weight"%string := 7]})] [(3, 1, ∅)]
           2 3 {["weight"%string := 7]} [("weight"%string, 7)] [] "kind" 1).
  - reflexivity.
  - repeat constructor; vm_compute; eauto.
  - vm_compute. reflexivity.
  - vm_compute. reflexivity.
Defined.

(** ** The tile quad and the edge-length table *)

Section TileMore.
Import Mercator Tile.
Context `{Numpy}.

(** The quad that [get_tile_vertices] returns is a rectangle in spherical
    coordinates with sides along the meridians and parallels: each side's two
    corners have the same longitude (left, right) or the same latitude (top,
    bottom), bit for bit, whatever the elementary functions are. *)
Theorem tile_vertices_axis_aligned (lon lat : float) (tile_size : Z)
    (p0 p1 p2 p3 : point)
    (Hquad : get_tile_vertices lon lat tile_size = Returned (p0, p1, p2, p3)) :
  p0.1 = p2.1 /\ p1.1 = p3.1 /\ p0.2 = p1.2 /\ p2.2 = p3.2.
Proof.
  unfold get_tile_vertices, dict_getitem in Hquad.
  destruct (tile_length !! tile_size) as [length|]; [|discriminate Hquad].
  cbn [mbind outcome_bind] in Hquad.
  destruct (spherical_to_mercator_coordinates lon lat) as [yv xv].
  injection Hquad as <- <- <- <-. now cbn.
Qed.

(** Each zoom level's edge length is exactly half that of the level before,
    in binary64: so the offset [length / 2] used at one level is the table's
    edge length of the next. *)
Theorem tile_length_halves (tile_size : Z) (Hzoom : 1 <= tile_size <= 15) :
  exists length : float,
    tile_length !! tile_size = Some length
    /\ tile_length !! (tile_size + 1) = Some (length / 2)%float.
Proof.
  assert (Hcases : tile_size = 1 \/ tile_size = 2 \/ tile_size = 3 \/ tile_size = 4
                   \/ tile_size = 5 \/ tile_size = 6 \/ tile_size = 7 \/ tile_size = 8
                   \/ tile_size = 9 \/ tile_size = 10 \/ tile_size = 11
                   \/ tile_size = 12 \/ tile_size = 13 \/ tile_size = 14
                   \/ tile_size = 15) by lia.
  repeat (destruct Hcases as [->|Hcases];
          [eexists; split; [vm_compute; reflexivity|vm_compute; reflexivity]|]).
  subst tile_size. eexists; split; vm_compute; reflexivity.
Qed.

End TileMore.

Lemma tile_vertices_axis_aligned_witness :
  exists p0 p1 p2 p3 : Tile.point,
    @Tile.get_tile_vertices coarse_numpy 10 50 12 = Returned (p0, p1, p2, p3)
    /\ p0.1 = p2.1 /\ p1.1 = p3.1 /\ p0.2 = p1.2 /\ p2.2 = p3.2.
Proof.
  do 4 eexists. split; [vm_compute; reflexivity|].
  exact (@tile_vertices_axis_aligned coarse_numpy 10 50 12 _ _ _ _ eq_refl).
Defined.

Lemma tile_length_halves_witness :
  exists length : float,
    Tile.tile_length !! 7 = Some length
    /\ Tile.tile_length !! (7 + 1) = Some (length / 2)%float.
Proof. apply (tile_length_halves 7). lia. Defined.
